(** * GACG-Caddy: the new-round form and the score aggregates

    A shallow embedding of [components/round/NewRound.tsx], of the enums of
    [data/constants.ts] and of the modal in [Dashboard], together with the
    score aggregates of [utils/holes] that the form displays.

    Conventions.
    - Hole scores handed to the aggregates are integers ([Z]).
    - A JavaScript number that the form can observe is [NaN], an infinity or
      a finite rational ([Qc]); only comparison with zero and strict equality
      are used on them.
    - Calls to collaborators outside the component (notifications, the
      create-round mutation, [closeModal]) are recorded in an effect log. *)

From Stdlib Require Import QArith Qcanon.
From stdpp Require Import gmap strings list fin_maps pretty numbers.

Local Open Scope Z_scope.

(** ** utils/holes *)

Module Holes.

(** [scores[i]] for an integer array; a missing entry counts as zero. *)
Definition scoreAt (scores : list Z) (i : nat) : Z :=
  default 0 (scores !! i).

(** Sum of [count] consecutive holes starting at index [first]. *)
Definition sumHoles (scores : list Z) (first count : nat) : Z :=
  foldr (λ i acc, scoreAt scores i + acc) 0 (seq first count).

(** Modelled from the spec: [utils/holes.getOut] is imported by NewRound.tsx
    but its file is not part of the sources. "getOut(scores): sum of
    scores[0..8]". What is shown for a card with unscored holes, zero or a
    blank, the spec calls a display choice and no contract; here an unscored
    hole is the number 0, as [Number('')] makes it, and is summed like any
    other. *)
Definition getOut (scores : list Z) : Z := sumHoles scores 0 9.

(** Modelled from the spec: [utils/holes.getIn], "getIn(scores): sum of
    scores[9..17]". *)
Definition getIn (scores : list Z) : Z := sumHoles scores 9 9.

(** Modelled from the spec: [utils/holes.getGross], "getGross(scores): sum
    of all 18". *)
Definition getGross (scores : list Z) : Z := sumHoles scores 0 18.

(** Modelled from the spec: [utils/holes.getNet], "getNet(scores, handicap):
    getGross(scores) - handicap". *)
Definition getNet (scores : list Z) (handicap : Z) : Z :=
  getGross scores - handicap.

(** Plain sum of a list of integers, used to restate the aggregates over
    slices of the array. *)
Definition total (l : list Z) : Z := foldr Z.add 0 l.

(** The scorecard of the spec's worked example. *)
Definition exampleScores : list Z :=
  [4; 5; 3; 4; 5; 4; 3; 5; 4; 4; 4; 5; 3; 4; 5; 4; 3; 4].

End Holes.

(** ** JavaScript values seen by the component *)

Module JS.

(** A JavaScript number as far as this component can tell them apart: every
    finite double is a rational. *)
Inductive number :=
| NaN
| Infinity (negative : bool)
| Finite (q : Qc).

(** [n > 0]. Any comparison with [NaN] is false. *)
Definition gt0 (n : number) : bool :=
  match n with
  | NaN => false
  | Infinity negative => negb negative
  | Finite q => bool_decide (0 < q)%Qc
  end.

(** [a === b] on numbers: [NaN] equals nothing. *)
Definition strictEq (a b : number) : bool :=
  match a, b with
  | Finite p, Finite q => bool_decide (p = q)
  | Infinity s, Infinity t => bool_decide (s = t)
  | _, _ => false
  end.

(** The number denoted by an integer. *)
Definition ofZ (z : Z) : number := Finite (Qc_of_Z z).

(** A value a mutation may resolve with. *)
Inductive value :=
| VUndefined
| VNull
| VBool (b : bool)
| VNum (n : number)
| VStr (s : string)
| VObject.

(** [v === true]: no coercion, only the boolean [true] qualifies. *)
Definition isTrue (v : value) : bool :=
  match v with
  | VBool true => true
  | _ => false
  end.

End JS.

(** ** data/constants.ts *)

Inductive TournamentDay := FRIDAY | SATURDAY | SUNDAY | ALL.
Inductive Division := A | B.

(** ** What the component takes from its surroundings

    The language's string-to-number conversion behind [Number(...)], and
    [utils/date.getTournamentDay], whose file is not part of the sources. *)
Class Runtime := {
  StringToNumber : string → JS.number;
  getTournamentDay : TournamentDay;
}.

(** A digit of a decimal numeral. *)
Definition digitValue (c : Ascii.ascii) : option Z :=
  let n := Z.of_nat (Ascii.nat_of_ascii c) in
  if bool_decide (48 ≤ n ≤ 57) then Some (n - 48) else None.

Fixpoint decimalValue (s : string) (acc : Z) : option Z :=
  match s with
  | EmptyString => Some acc
  | String c rest =>
      match digitValue c with
      | Some d => decimalValue rest (10 * acc + d)
      | None => None
      end
  end.

(** A runtime for closed examples: [Number("")] is 0, a string of decimal
    digits denotes its integer, and every other string is read as [NaN]
    (JavaScript accepts more numerals than that; the examples use digit
    strings only). The form is first rendered on a Friday. *)
Definition sampleRuntime : Runtime := {|
  StringToNumber s :=
    match decimalValue s 0 with
    | Some z => JS.ofZ z
    | None => JS.NaN
    end;
  getTournamentDay := FRIDAY;
|}.

(** ** components/round/NewRound.tsx: data *)

(** Modelled from the spec: [hooks/players/model.Player], a type whose
    declaration is not part of the sources: "Player: { id, fullName,
    division ∈ {A,B}, handicap: integer }". The component compares [id] with
    a number and prints it with [toString]. *)
Record Player := {
  id : JS.number;
  fullName : string;
  division : Division;
  handicap : Z;
}.

(** The value a form field of the [NumberInput] holds: [number | string]. *)
Inductive FieldValue :=
| VNumber (n : JS.number)
| VString (s : string).

(** One entry of [grossHoles]: [{ score: '' }]. *)
Record HoleField := { score : FieldValue }.

(** [form.values]. [playerId] is [null] or the string value of the select. *)
Module FormValues.
Record t := mk {
  playerId : option string;
  day : TournamentDay;
  grossHoles : list HoleField;
}.
End FormValues.

(** [NewRoundFormData], the result of [transformValues]. *)
Module NewRoundFormData.
Record t := mk {
  player : option Player;
  day : TournamentDay;
  grossHoles : list JS.number;
}.
End NewRoundFormData.

(** The argument of [createRoundMutation.mutate]. *)
Module CreateRound.
Record t := mk {
  playerId : JS.number;
  day : TournamentDay;
  grossHoles : list JS.number;
}.
End CreateRound.

(** What a validation rule returns and what [form.errors] stores: [null],
    [true] or a message. *)
Inductive ReactNode :=
| RNull
| RTrue
| RText (message : string).

Global Instance ReactNode_eq_dec : EqDecision ReactNode.
Proof. solve_decision. Defined.

(** ** useForm: initial values, validation, transformation *)

(** [Number(value)] on a field value. *)
Definition Number `{Runtime} (value : FieldValue) : JS.number :=
  match value with
  | VNumber n => n
  | VString s => StringToNumber s
  end.

(** [Number(values.playerId)]: [Number(null)] is 0. *)
Definition NumberOfPlayerId `{Runtime} (value : option string) : JS.number :=
  match value with
  | None => JS.ofZ 0
  | Some s => StringToNumber s
  end.

(** [initialValues]: no player, today's tournament day and
    [new Array(18).fill({ score: '' })]. The eighteen entries start as one
    shared object; the form library copies the values before each write, so
    a write to one entry never shows in another, and a list of separate
    entries describes them. *)
Definition initialValues `{Runtime} : FormValues.t :=
  FormValues.mk None getTournamentDay (replicate 18 {| score := VString "" |}).

(** [validate.playerId]: [(value) => (value != null ? null : 'Player is
    required')]. *)
Definition validatePlayerId (value : option string) : ReactNode :=
  match value with
  | Some _ => RNull
  | None => RText "Player is required"
  end.

(** [validate.grossHoles.score]: [(value) => (Number(value) > 0 ? null :
    true)]. *)
Definition validateScore `{Runtime} (value : FieldValue) : ReactNode :=
  if JS.gt0 (Number value) then RNull else RTrue.

(** The error path of the score of one hole: [`grossHoles.${index}.score`]. *)
Definition scorePath (index : nat) : string :=
  "grossHoles." +:+ pretty index +:+ ".score".

(** The form library walks the rules record: the list rule is applied to every
    element of the array, and each result is stored under the element's
    path. *)
Fixpoint validateHoles `{Runtime} (holes : list HoleField) (index : nat)
  (acc : gmap string ReactNode) : gmap string ReactNode :=
  match holes with
  | [] => acc
  | hole :: rest =>
      validateHoles rest (S index)
        (<[scorePath index := validateScore (score hole)]> acc)
  end.

Definition validateRulesRecord `{Runtime} (values : FormValues.t)
  : gmap string ReactNode :=
  validateHoles (FormValues.grossHoles values) 0
    (<["playerId" := validatePlayerId (FormValues.playerId values)]> ∅).

(** The library keeps a rule's result as an error unless it is [null]
    ([undefined] and [false] are never produced by the rules above). *)
Definition filterErrors (raw : gmap string ReactNode) : gmap string ReactNode :=
  filter (λ entry, entry.2 ≠ RNull) raw.

Definition validateValues `{Runtime} (values : FormValues.t)
  : gmap string ReactNode :=
  filterErrors (validateRulesRecord values).

(** [hasErrors]: the filtered record has at least one key. *)
Definition hasErrors (errors : gmap string ReactNode) : bool :=
  negb (bool_decide (errors = ∅)).

(** [transformValues]. *)
Definition transformValues `{Runtime} (players : list Player)
  (values : FormValues.t) : NewRoundFormData.t :=
  NewRoundFormData.mk
    (List.find
       (λ player, JS.strictEq (id player)
                    (NumberOfPlayerId (FormValues.playerId values)))
       players)
    (FormValues.day values)
    (map (λ hole, Number (score hole)) (FormValues.grossHoles values)).

(** ** The world the component acts on *)

(** The handle that [notifications.loading] returns. *)
Definition NotificationId := nat.

(** Calls that leave the component. *)
Inductive Effect :=
| NotifyLoading (handle : NotificationId) (message : string)
| NotifyUpdateSuccess (handle : NotificationId) (message : string)
| NotifyUpdateFailure (handle : NotificationId) (message : string)
| Mutate (request : CreateRound.t)
| CloseModal.

(** [opened] is the disclosure state of the Dashboard's modal, [values] and
    [errors] are the form's state, [effects] lists the calls made so far,
    oldest first. *)
Record World := mkWorld {
  opened : bool;
  values : FormValues.t;
  errors : gmap string ReactNode;
  effects : list Effect;
}.

(** How a create-round request ends: it is still in flight, it failed in
    transport ([onError]), or it resolved with a response ([onSuccess]). *)
Inductive MutationOutcome :=
| Pending
| Rejected
| Resolved (response : JS.value).

(** Computations that read and update the world. *)
Definition M (A : Type) : Type := World → A * World.

Definition ret {A} (a : A) : M A := λ w, (a, w).

Definition bind {A B} (m : M A) (k : A → M B) : M B :=
  λ w, let '(a, w') := m w in k a w'.

Declare Scope action_scope.
Delimit Scope action_scope with action.
Notation "'let*' x := m 'in' k" := (bind m (λ x, k))
  (at level 10, x name, m at level 100, k at level 200) : action_scope.
Notation "m >> k" := (bind m (λ _, k))
  (at level 100, k at level 200, right associativity) : action_scope.

Definition exec {A} (m : M A) (w : World) : World := (m w).2.

Definition emit (e : Effect) : M unit :=
  λ w, (tt, mkWorld (opened w) (values w) (errors w) (effects w ++ [e])).

(** [notifications.loading(message)]: the handle is the position of the call
    in the log, so two calls never share one. *)
Definition notifications_loading (message : string) : M NotificationId :=
  λ w, (length (effects w),
        mkWorld (opened w) (values w) (errors w)
          (effects w ++ [NotifyLoading (length (effects w)) message])).

Definition notifications_updateSuccess (handle : NotificationId)
  (message : string) : M unit :=
  emit (NotifyUpdateSuccess handle message).

Definition notifications_updateFailure (handle : NotificationId)
  (message : string) : M unit :=
  emit (NotifyUpdateFailure handle message).

(** [closeModal], which the Dashboard binds to the disclosure's [close]. *)
Definition closeModal : M unit :=
  λ w, (tt, mkWorld false (values w) (errors w) (effects w ++ [CloseModal])).

(** [form.setErrors(errors)] replaces the whole error record. *)
Definition form_setErrors (errs : gmap string ReactNode) : M unit :=
  λ w, (tt, mkWorld (opened w) (values w) errs (effects w)).

(** [createRoundMutation.mutate(request, { onSuccess, onError })]: the request
    is sent once, and the callback matching its outcome runs once. *)
Definition mutate (outcome : MutationOutcome) (request : CreateRound.t)
  (onSuccess : JS.value → M unit) (onError : M unit) : M unit :=
  (emit (Mutate request) >>
   match outcome with
   | Pending => ret tt
   | Rejected => onError
   | Resolved response => onSuccess response
   end)%action.

(** ** onSubmit and the submit handler of the form *)

Definition onSubmit (outcome : MutationOutcome) (data : NewRoundFormData.t)
  : M unit :=
  match NewRoundFormData.player data with
  | Some player =>
      (let* loadingNotification := notifications_loading "Saving round.." in
       mutate outcome
         (CreateRound.mk (id player) (NewRoundFormData.day data)
            (NewRoundFormData.grossHoles data))
         (λ response,
            if JS.isTrue response then
              notifications_updateSuccess loadingNotification "Saved round" >>
              closeModal
            else
              notifications_updateFailure loadingNotification
                "Failed to save round")
         (notifications_updateFailure loadingNotification
            "Failed to save round"))%action
  | None =>
      form_setErrors {["playerId" := RText "Selected player no longer exists"]}
  end.

(** [form.onSubmit(handler)] run on a submit event: validate, store the
    errors found, and call the handler with the transformed values only when
    there are none. *)
Definition form_onSubmit `{Runtime} (players : list Player)
  (handler : NewRoundFormData.t → M unit) : M unit :=
  λ w,
    let results := validateValues (values w) in
    (form_setErrors results >>
     if hasErrors results then ret tt
     else handler (transformValues players (values w)))%action w.

(** The [onSubmit] attribute of the [<form>]. *)
Definition submit `{Runtime} (players : list Player)
  (outcome : MutationOutcome) : M unit :=
  form_onSubmit players (onSubmit outcome).

(** ** HoleInput: the number input of one hole *)

Module NumberInput.

Inductive ClampBehavior := blur | strict | none.

(** The props of the number input that decide which values it lets through. *)
Record Props := {
  min : option Qc;
  max : option Qc;
  clampBehavior : ClampBehavior;
  allowNegative : bool;
  allowDecimal : bool;
}.

Definition isInRange (value : Qc) (min max : option Qc) : bool :=
  match min with
  | Some lo => bool_decide (lo ≤ value)%Qc
  | None => true
  end
  &&
  match max with
  | Some hi => bool_decide (value ≤ hi)%Qc
  | None => true
  end.

(** A rational in lowest terms is an integer when its denominator is 1. *)
Definition isInteger (value : Qc) : bool :=
  bool_decide (Qden (this value) = 1%positive).

(** The numeric values the input lets the user enter: negative ones only
    with [allowNegative], fractional ones only with [allowDecimal], and with
    strict clamping nothing outside [[min, max]]. *)
Definition allows (props : Props) (value : Qc) : bool :=
  (allowNegative props || bool_decide (0 ≤ value)%Qc)
  && (allowDecimal props || isInteger value)
  && match clampBehavior props with
     | strict => isInRange value (min props) (max props)
     | _ => true
     end.

(** What [onChange] may hand to the form: the empty string of a cleared
    input, or a value whose number the input allows. *)
Definition emits `{Runtime} (props : Props) (value : FieldValue) : bool :=
  match value with
  | VString "" => true
  | _ =>
      match Number value with
      | JS.Finite q => allows props q
      | _ => false
      end
  end.

End NumberInput.

(** [HoleInput]: the props written after [{...otherProps}] win over whatever
    the caller passed. *)
Definition HoleInput (otherProps : NumberInput.Props) : NumberInput.Props := {|
  NumberInput.min := Some (Qc_of_Z 1);
  NumberInput.max := Some (Qc_of_Z 99);
  NumberInput.clampBehavior := NumberInput.strict;
  NumberInput.allowNegative := false;
  NumberInput.allowDecimal := false;
|}.

(** The props [form.getInputProps] contributes leave the filter at the
    library's defaults. *)
Definition inputProps : NumberInput.Props := {|
  NumberInput.min := None;
  NumberInput.max := None;
  NumberInput.clampBehavior := NumberInput.blur;
  NumberInput.allowNegative := true;
  NumberInput.allowDecimal := true;
|}.

(** ** The form as a transition system *)

(** What can happen to the Dashboard and the form it shows. A submission
    carries the player list fetched at that moment and the outcome of the
    request it may send; the callback of the request is taken to run before
    the next event. *)
Inductive Event :=
| OpenModal
| DismissModal
| SelectPlayer (value : option string)
| SelectDay (value : TournamentDay)
| EnterScore (index : nat) (value : FieldValue)
| ResetForm
| SubmitForm (players : list Player) (outcome : MutationOutcome).

(** [useDisclosure(false)]: the modal starts closed; the form it will show
    starts from [initialValues] without errors. *)
Definition initialWorld `{Runtime} : World :=
  mkWorld false initialValues ∅ [].

(** [form.setFieldValue(`grossHoles.${index}.score`, value)]: the entry at
    [index] gets the new score; an index past the end changes nothing. *)
Definition setScore (index : nat) (value : FieldValue)
  (values : FormValues.t) : FormValues.t :=
  FormValues.mk (FormValues.playerId values) (FormValues.day values)
    (<[index := {| score := value |}]> (FormValues.grossHoles values)).

(** Events of the form need the modal to be open; a score is entered through
    the [HoleInput] of its hole. *)
Definition enabled `{Runtime} (e : Event) (w : World) : bool :=
  match e with
  | OpenModal | DismissModal => true
  | EnterScore _ value =>
      opened w && NumberInput.emits (HoleInput inputProps) value
  | _ => opened w
  end.

(** The state after an event. Opening a closed modal mounts a fresh form;
    changing a field clears the error stored for it. *)
Definition handle `{Runtime} (e : Event) (w : World) : World :=
  match e with
  | OpenModal =>
      if opened w then w else mkWorld true initialValues ∅ (effects w)
  | DismissModal => mkWorld false (values w) (errors w) (effects w)
  | SelectPlayer value =>
      mkWorld (opened w)
        (FormValues.mk value (FormValues.day (values w))
           (FormValues.grossHoles (values w)))
        (delete "playerId" (errors w)) (effects w)
  | SelectDay value =>
      mkWorld (opened w)
        (FormValues.mk (FormValues.playerId (values w)) value
           (FormValues.grossHoles (values w)))
        (delete "day" (errors w)) (effects w)
  | EnterScore index value =>
      mkWorld (opened w) (setScore index value (values w))
        (delete (scorePath index) (errors w)) (effects w)
  | ResetForm => mkWorld (opened w) initialValues ∅ (effects w)
  | SubmitForm players outcome => exec (submit players outcome) w
  end.

(** The worlds the user can bring about. *)
Inductive reachable `{Runtime} : World → Prop :=
| reachable_initial : reachable initialWorld
| reachable_handle w e :
    reachable w → enabled e w = true → reachable (handle e w).

(** Running a list of events in order, as far as they are enabled. *)
Fixpoint play `{Runtime} (events : list Event) (w : World) : option World :=
  match events with
  | [] => Some w
  | e :: rest => if enabled e w then play rest (handle e w) else None
  end.

(** ** Reading the effect log *)

(** The calls made between an earlier world and a later one. *)
Definition newEffects (before after : World) : list Effect :=
  drop (length (effects before)) (effects after).

Definition isFailureNotification (e : Effect) : bool :=
  match e with
  | NotifyUpdateFailure _ _ => true
  | _ => false
  end.

(** How many failure notifications a log shows. *)
Definition failureNotifications (log : list Effect) : nat :=
  length (filter (λ e, isFailureNotification e = true) log).

(** The create-round requests a log contains. *)
Definition requests (log : list Effect) : list CreateRound.t :=
  omap (λ e, match e with Mutate request => Some request | _ => None end) log.

Definition isCloseModal (e : Effect) : bool :=
  match e with
  | CloseModal => true
  | _ => false
  end.

(** Whether a log asks for the modal to be closed. *)
Definition closesModal (log : list Effect) : bool :=
  existsb isCloseModal log.

(** A mutation failed: the request was rejected, or it resolved with a
    response other than [true]. *)
Definition failed (outcome : MutationOutcome) : bool :=
  match outcome with
  | Pending => false
  | Rejected => true
  | Resolved response => negb (JS.isTrue response)
  end.

(** The score a field holds, if any: the empty string is a blank field. *)
Definition presentScore `{Runtime} (value : FieldValue) : option JS.number :=
  match value with
  | VString "" => None
  | _ => Some (Number value)
  end.

(** The errors the form stores are up to date: apart from the one on the
    player, each is an error validation would report for the current
    values. *)
Definition errorsAreCurrent `{Runtime} (w : World) : Prop :=
  ∀ path e, errors w !! path = Some e → path ≠ "playerId" →
            validateValues (values w) !! path = Some e.

(** ** The queries behind the form *)

Module Query.
(** The status of a query of the data layer. *)
Inductive Status := pending | error | success.
End Query.

(** [query.isSuccess ? query.data : []], as the component reads the players
    and the holes. *)
Definition queryData {T} (status : Query.Status) (data : list T) : list T :=
  match status with
  | Query.success => data
  | _ => []
  end.

(** Modelled from the spec: [hooks/holes/model.Hole], a type whose
    declaration is not part of the sources: "Hole: { holeNumber: 1..18, par:
    integer, handicap: integer }". The component reads these three fields. *)
Module Hole.
Record t := mk {
  holeNumber : nat;
  par : Z;
  handicap : Z;
}.
End Hole.

(** One rendered [HoleInput]: its React key, the hole it shows and the path of
    the form field it is bound to. *)
Module HoleInputElement.
Record t := mk {
  key : string;
  hole : Hole.t;
  path : string;
}.
End HoleInputElement.

(** [holeInputs]: one input per fetched hole, bound by its position to
    [`grossHoles.${index}.score`]. *)
Definition holeInputs (holes : list Hole.t) : list HoleInputElement.t :=
  imap (λ index hole,
          HoleInputElement.mk
            ("hole-" +:+ pretty (Hole.holeNumber hole) +:+ "-input")
            (Hole.mk (Hole.holeNumber hole) (Hole.par hole) (Hole.handicap hole))
            (scorePath index))
       holes.

(** With the holes known, a score can be entered only where an input was
    rendered. *)
Definition enabledWith `{Runtime} (holes : list Hole.t) (e : Event)
  (w : World) : bool :=
  enabled e w &&
  match e with
  | EnterScore index _ => bool_decide (index < length (holeInputs holes))%nat
  | _ => true
  end.

(** The worlds the user can bring about while the form shows the inputs of
    [holes]. *)
Inductive reachableWith `{Runtime} (holes : list Hole.t) : World → Prop :=
| reachableWith_initial : reachableWith holes initialWorld
| reachableWith_handle w e :
    reachableWith holes w → enabledWith holes e w = true →
    reachableWith holes (handle e w).


(** ** PlayerSelectByDivision *)

Global Instance Division_eq_dec : EqDecision Division.
Proof. solve_decision. Defined.

(** The language's [Number.prototype.toString], which the select uses to
    print a player's id. *)
Class Printing := {
  NumberToString : JS.number → string;
}.

(** The string value of a member of the [Division] enum. *)
Definition DivisionValue (d : Division) : string :=
  match d with
  | A => "a"
  | B => "b"
  end.

(** [Object.values(Division)]: the members in declaration order. *)
Definition DivisionValues : list Division := [A; B].

Definition upperChar (c : Ascii.ascii) : Ascii.ascii :=
  let n := Ascii.nat_of_ascii c in
  if bool_decide (97 ≤ n ≤ 122)%nat then Ascii.ascii_of_nat (n - 32) else c.

(** [toUpperCase] on strings of ASCII characters. *)
Fixpoint toUpperCase (s : string) : string :=
  match s with
  | EmptyString => EmptyString
  | String c rest => String (upperChar c) (toUpperCase rest)
  end.

(** An option of the select and a group of options. *)
Module SelectItem.
Record t := mk {
  value : string;
  label : string;
}.
End SelectItem.

Module SelectGroup.
Record t := mk {
  group : string;
  items : list SelectItem.t;
}.
End SelectGroup.

(** The option the select offers for one player. *)
Definition playerItem `{Printing} (player : Player) : SelectItem.t :=
  SelectItem.mk (NumberToString (id player)) (fullName player).

(** [getPlayerItemsByDivision]. *)
Definition getPlayerItemsByDivision `{Printing} (players : list Player)
  (wanted : Division) : list SelectItem.t :=
  map playerItem (filter (λ player, division player = wanted) players).

(** The [data] prop that [PlayerSelectByDivision] hands to the select. *)
Definition PlayerSelectByDivision `{Printing} (status : Query.Status)
  (data : list Player) : list SelectGroup.t :=
  let players := queryData status data in
  map (λ d, SelectGroup.mk (toUpperCase (DivisionValue d) +:+ " Division")
              (getPlayerItemsByDivision players d))
      DivisionValues.

(** ** Sample data for closed examples *)

Definition samplePlayer : Player := {|
  id := JS.ofZ 7;
  fullName := "Sam Par";
  division := A;
  handicap := 10;
|}.

Definition sampleHoles : list HoleField :=
  map (λ strokes, {| score := VNumber (JS.ofZ strokes) |}) Holes.exampleScores.

(** A filled-in form for player 7. *)
Definition sampleValues : FormValues.t :=
  FormValues.mk (Some "7") FRIDAY sampleHoles.

(** The same scores with no player selected. *)
Definition noPlayerValues : FormValues.t :=
  FormValues.mk None FRIDAY sampleHoles.

(** Player 7 selected, hole 3 typed as 0 by some other means than the input. *)
Definition zeroScoreValues : FormValues.t :=
  setScore 2 (VString "0") sampleValues.

Definition worldOf (v : FormValues.t) : World := mkWorld true v ∅ [].

Definition sampleData : NewRoundFormData.t :=
  NewRoundFormData.mk (Some samplePlayer) FRIDAY (map JS.ofZ Holes.exampleScores).

(** Filling in the form: open the modal, pick player 7 and type the eighteen
    scores of the worked example. *)
Definition fillingSession : list Event :=
  OpenModal :: SelectPlayer (Some "7")
  :: imap (λ index strokes, EnterScore index (VNumber (JS.ofZ strokes)))
       Holes.exampleScores.

(** The world once the form is filled in. *)
Definition filledWorld : World :=
  default (@initialWorld sampleRuntime)
    (@play sampleRuntime fillingSession (@initialWorld sampleRuntime)).

(** A whole session: fill in the form and submit; the request succeeds. *)
Definition sampleSession : list Event :=
  fillingSession ++ [SubmitForm [samplePlayer] (Resolved (JS.VBool true))].

(** The world at the end of the session. *)
Definition sessionWorld : World :=
  default (@initialWorld sampleRuntime)
    (@play sampleRuntime sampleSession (@initialWorld sampleRuntime)).

(** Printing for closed examples: an integer prints as its decimal numeral;
    the examples print integers only. *)
Definition samplePrinting : Printing := {|
  NumberToString n :=
    match n with
    | JS.Finite q =>
        if NumberInput.isInteger q then pretty (Qnum (this q)) else "NaN"
    | _ => "NaN"
    end;
|}.

(** Three players in two divisions; the second has id 0. *)
Definition samplePlayers : list Player :=
  [samplePlayer;
   {| id := JS.ofZ 0; fullName := "Bo Gey"; division := B; handicap := 18 |};
   {| id := JS.ofZ 12; fullName := "Al Batross"; division := A; handicap := 4 |}].




(** * Properties of the score aggregates *)

Module HolesFacts.
Import Holes.

Lemma sumHoles_split (scores : list Z) (first a b : nat) :
  sumHoles scores first (a + b) =
  sumHoles scores first a + sumHoles scores (first + a) b.
Proof.
  unfold sumHoles. rewrite seq_app, foldr_app.
  generalize (foldr (λ i acc, scoreAt scores i + acc) 0 (seq (first + a) b)).
  intros tail. induction (seq first a) as [|i l IH]; simpl; lia.
Qed.

Lemma sumHoles_total (scores : list Z) (count first : nat) :
  (first + count ≤ length scores)%nat →
  sumHoles scores first count = total (take count (drop first scores)).
Proof.
  revert first. induction count as [|count IH]; intros first Hlen.
  - reflexivity.
  - unfold sumHoles in *. simpl seq. simpl foldr.
    destruct (drop first scores) as [|x rest] eqn:Hdrop.
    { apply (f_equal length) in Hdrop. rewrite length_drop in Hdrop.
      simpl in Hdrop. lia. }
    assert (scores !! first = Some x) as Hx.
    { rewrite <- (Nat.add_0_r first), <- lookup_drop, Hdrop. reflexivity. }
    assert (drop (S first) scores = rest) as Hrest.
    { replace (S first) with (first + 1)%nat by lia.
      rewrite <- drop_drop, Hdrop. reflexivity. }
    unfold scoreAt at 1. rewrite Hx. simpl.
    rewrite IH by lia. rewrite Hrest. reflexivity.
Qed.

(** C1. For every 18-element score sequence, the gross total is the sum of
    the front nine and the back nine: getGross = getOut + getIn. *)
Theorem getGross_is_getOut_plus_getIn (s : list Z) :
  length s = 18%nat → getGross s = getOut s + getIn s.
Proof.
  intros _. unfold getGross, getOut, getIn.
  exact (sumHoles_split s 0 9 9).
Qed.

Lemma getGross_is_getOut_plus_getIn_witness :
  length exampleScores = 18%nat ∧
  getGross exampleScores = getOut exampleScores + getIn exampleScores.
Proof.
  split; [reflexivity|].
  apply (getGross_is_getOut_plus_getIn exampleScores). reflexivity.
Defined.

(** C2. For every 18-element score sequence, getOut is the sum of the first
    nine entries s[0..8], getIn is the sum of the last nine entries s[9..17],
    and getGross is the sum of all 18 entries. *)
Theorem aggregates_are_slice_sums (s : list Z) :
  length s = 18%nat →
  getOut s = total (take 9 s) ∧
  getIn s = total (drop 9 s) ∧
  getGross s = total s.
Proof.
  intros Hlen. unfold getOut, getIn, getGross.
  rewrite !sumHoles_total by lia. rewrite drop_0.
  rewrite (take_ge (drop 9 s) 9) by (rewrite length_drop; lia).
  rewrite (take_ge s 18) by lia. done.
Qed.

Lemma aggregates_are_slice_sums_witness :
  length exampleScores = 18%nat ∧
  getOut exampleScores = total (take 9 exampleScores) ∧
  getIn exampleScores = total (drop 9 exampleScores) ∧
  getGross exampleScores = total exampleScores.
Proof.
  split; [reflexivity|].
  apply (aggregates_are_slice_sums exampleScores). reflexivity.
Defined.

(** C3. For every 18-element score sequence and every integer handicap,
    getNet is getGross minus the handicap; the result is negative when the
    handicap exceeds the gross total. *)
Theorem getNet_is_getGross_minus_handicap (s : list Z) (h : Z) :
  length s = 18%nat →
  getNet s h = getGross s - h ∧ (getGross s < h → getNet s h < 0).
Proof.
  intros _. unfold getNet. split; [reflexivity | lia].
Qed.

Lemma getNet_is_getGross_minus_handicap_witness :
  length exampleScores = 18%nat ∧
  getNet exampleScores 100 = getGross exampleScores - 100 ∧
  (getGross exampleScores < 100 → getNet exampleScores 100 < 0) ∧
  getNet exampleScores 100 = -27.
Proof.
  split; [reflexivity|].
  destruct (getNet_is_getGross_minus_handicap exampleScores 100 eq_refl)
    as [Hnet Hneg].
  split; [exact Hnet|]. split; [exact Hneg|]. reflexivity.
Defined.

(** C8. On the worked example, scores 4,5,3,4,5,4,3,5,4,4,4,5,3,4,5,4,3,4
    with handicap 10: out is 37, in is 36, gross is 73 and net is 63. *)
Theorem worked_example :
  getOut exampleScores = 37 ∧
  getIn exampleScores = 36 ∧
  getGross exampleScores = 73 ∧
  getNet exampleScores 10 = 63.
Proof. repeat split; reflexivity. Qed.

End HolesFacts.

(** * Properties of the new-round form *)

Module NewRoundFacts.

(** ** Error paths *)

Lemma append_cons (a : Ascii.ascii) (s t : string) :
  String a s +:+ t = String a (s +:+ t).
Proof. reflexivity. Qed.

Lemma length_append (s t : string) :
  String.length (s +:+ t) = (String.length s + String.length t)%nat.
Proof.
  induction s as [|a s IH]; [reflexivity|].
  rewrite append_cons. simpl. by rewrite IH.
Qed.

Lemma append_cancel_r (t s1 s2 : string) :
  s1 +:+ t = s2 +:+ t → s1 = s2.
Proof.
  revert s2. induction s1 as [|a s1 IH]; intros [|b s2] Heq.
  - reflexivity.
  - apply (f_equal String.length) in Heq.
    rewrite !length_append in Heq. simpl in Heq. lia.
  - apply (f_equal String.length) in Heq.
    rewrite !length_append in Heq. simpl in Heq. lia.
  - rewrite !append_cons in Heq. injection Heq as -> Heq.
    f_equal. by apply IH.
Qed.

Lemma scorePath_inj (i j : nat) : scorePath i = scorePath j → i = j.
Proof.
  unfold scorePath. intros Heq.
  apply String.app_inj in Heq. apply append_cancel_r in Heq.
  by apply (inj pretty).
Qed.

Lemma scorePath_not_playerId (i : nat) : scorePath i ≠ "playerId".
Proof.
  unfold scorePath. rewrite append_cons. discriminate.
Qed.

Section Validation.
Context `{Runtime}.

(** Later elements of the array never write to a path outside their own. *)
Lemma validateHoles_lookup_other (holes : list HoleField) (index : nat)
  (acc : gmap string ReactNode) (path : string) :
  (∀ j, (j < length holes)%nat → path ≠ scorePath (index + j)) →
  validateHoles holes index acc !! path = acc !! path.
Proof.
  revert index acc. induction holes as [|hole rest IH]; intros index acc Hout.
  - reflexivity.
  - simpl. rewrite IH.
    + rewrite lookup_insert_ne; [done|].
      intros Heq. apply (Hout 0%nat); [simpl; lia|].
      by rewrite Nat.add_0_r.
    + intros j Hj. replace (S index + j)%nat with (index + S j)%nat by lia.
      apply Hout. simpl. lia.
Qed.

(** Each element's result is found under the element's own path. *)
Lemma validateHoles_lookup_score (holes : list HoleField) (index : nat)
  (acc : gmap string ReactNode) (j : nat) (hole : HoleField) :
  holes !! j = Some hole →
  validateHoles holes index acc !! scorePath (index + j)
  = Some (validateScore (score hole)).
Proof.
  revert index acc j. induction holes as [|first rest IH];
    intros index acc j Hj; [done|].
  destruct j as [|j]; simpl in *.
  - injection Hj as ->. rewrite Nat.add_0_r.
    rewrite validateHoles_lookup_other.
    + by rewrite lookup_insert_eq.
    + intros k _ Heq. apply scorePath_inj in Heq. lia.
  - replace (index + S j)%nat with (S index + j)%nat by lia. by apply IH.
Qed.

(** Every entry written by the walk is the result of some element, stored
    under that element's path, or was there before. *)
Lemma validateHoles_lookup_inv (holes : list HoleField) (index : nat)
  (acc : gmap string ReactNode) (path : string) (result : ReactNode) :
  validateHoles holes index acc !! path = Some result →
  acc !! path = Some result ∨
  ∃ j hole, holes !! j = Some hole ∧ path = scorePath (index + j) ∧
            result = validateScore (score hole).
Proof.
  revert index acc. induction holes as [|first rest IH];
    intros index acc Hlook; simpl in *; [by left|].
  apply IH in Hlook as [Hacc | (j & hole & Hj & -> & ->)].
  - apply lookup_insert_Some in Hacc as [[<- <-] | [_ Hacc]].
    + right. exists 0%nat, first. by rewrite Nat.add_0_r.
    + by left.
  - right. exists (S j), hole. split; [done|]. split; [f_equal; lia | done].
Qed.

Lemma validateScore_null (value : FieldValue) :
  validateScore value = RNull ↔ JS.gt0 (Number value) = true.
Proof. unfold validateScore. destruct (JS.gt0 (Number value)); naive_solver. Qed.

Lemma validatePlayerId_null (value : option string) :
  validatePlayerId value = RNull ↔ value ≠ None.
Proof. destruct value; naive_solver. Qed.

(** Validation finds nothing exactly when a player is selected and every
    score is a number above zero. *)
Lemma validateValues_empty (v : FormValues.t) :
  validateValues v = ∅ ↔
  FormValues.playerId v ≠ None ∧
  Forall (λ hole, JS.gt0 (Number (score hole)) = true) (FormValues.grossHoles v).
Proof.
  unfold validateValues, filterErrors, validateRulesRecord.
  rewrite map_empty_filter. unfold map_Forall. simpl. split.
  - intros Hall. split.
    + apply validatePlayerId_null. apply dec_stable. intros Hne.
      apply (Hall "playerId" (validatePlayerId (FormValues.playerId v))); [|done].
      rewrite validateHoles_lookup_other.
      * by rewrite lookup_insert_eq.
      * intros j _ Heq. symmetry in Heq. by apply scorePath_not_playerId in Heq.
    + apply Forall_lookup. intros j hole Hj.
      apply validateScore_null. apply dec_stable. intros Hne.
      apply (Hall (scorePath (0 + j)) (validateScore (score hole))); [|done].
      by apply validateHoles_lookup_score.
  - intros [Hplayer Hscores] path result Hlook Hbad.
    apply validateHoles_lookup_inv in Hlook as [Hacc | (j & hole & Hj & _ & ->)].
    + apply lookup_insert_Some in Hacc as [[_ <-] | [_ Hacc]]; [|done].
      by apply Hbad, validatePlayerId_null.
    + apply Hbad, validateScore_null.
      by apply (Forall_lookup_1 _ _ _ _ Hscores Hj).
Qed.

Lemma hasErrors_false (v : FormValues.t) :
  hasErrors (validateValues v) = false ↔
  FormValues.playerId v ≠ None ∧
  Forall (λ hole, JS.gt0 (Number (score hole)) = true) (FormValues.grossHoles v).
Proof.
  rewrite <- validateValues_empty. unfold hasErrors.
  rewrite negb_false_iff, bool_decide_eq_true. done.
Qed.

Lemma hasErrors_true (v : FormValues.t) :
  hasErrors (validateValues v) = true ↔
  FormValues.playerId v = None ∨
  Exists (λ hole, JS.gt0 (Number (score hole)) = false) (FormValues.grossHoles v).
Proof.
  split.
  - intros Htrue.
    destruct (FormValues.playerId v) as [selected|] eqn:Hplayer; [right | by left].
    assert (¬ Forall (λ hole, JS.gt0 (Number (score hole)) = true)
              (FormValues.grossHoles v)) as Hnot.
    { intros Hall.
      assert (hasErrors (validateValues v) = false) as Hfalse; [|congruence].
      apply hasErrors_false. by rewrite Hplayer. }
    apply not_Forall_Exists in Hnot; [|apply _].
    revert Hnot. apply Exists_impl. intros hole. simpl.
    by destruct (JS.gt0 _).
  - intros Hbad. apply not_false_iff_true. rewrite hasErrors_false.
    intros [Hplayer Hall]. destruct Hbad as [Hnone | Hsome]; [done|].
    apply Exists_exists in Hsome as (hole & Hin & Hle).
    rewrite Forall_forall in Hall.
    specialize (Hall hole Hin). congruence.
Qed.

End Validation.

(** ** Submitting *)

Section Submission.
Context `{Runtime}.

Lemma exec_submit_blocked (players : list Player) (outcome : MutationOutcome)
  (w : World) :
  hasErrors (validateValues (values w)) = true →
  exec (submit players outcome) w
  = mkWorld (opened w) (values w) (validateValues (values w)) (effects w).
Proof.
  intros Hbad. unfold exec, submit, form_onSubmit, bind, form_setErrors.
  simpl. by rewrite Hbad.
Qed.

Lemma exec_submit_passed (players : list Player) (outcome : MutationOutcome)
  (w : World) :
  hasErrors (validateValues (values w)) = false →
  exec (submit players outcome) w
  = exec (onSubmit outcome (transformValues players (values w)))
      (mkWorld (opened w) (values w) ∅ (effects w)).
Proof.
  intros Hok. unfold exec, submit, form_onSubmit, bind, form_setErrors.
  simpl. rewrite Hok.
  unfold hasErrors in Hok. apply negb_false_iff, bool_decide_eq_true in Hok.
  by rewrite Hok.
Qed.

Lemma validateValues_playerId_required (v : FormValues.t) :
  FormValues.playerId v = None →
  validateValues v !! "playerId" = Some (RText "Player is required").
Proof.
  intros Hnone. unfold validateValues, filterErrors, validateRulesRecord.
  apply map_lookup_filter_Some. split; [|done].
  rewrite validateHoles_lookup_other.
  - by rewrite lookup_insert_eq, Hnone.
  - intros j _ Heq. symmetry in Heq. by apply scorePath_not_playerId in Heq.
Qed.

Lemma validateValues_score_invalid (v : FormValues.t) (j : nat)
  (hole : HoleField) :
  FormValues.grossHoles v !! j = Some hole →
  JS.gt0 (Number (score hole)) = false →
  validateValues v !! scorePath j = Some RTrue.
Proof.
  intros Hj Hle. unfold validateValues, filterErrors, validateRulesRecord.
  apply map_lookup_filter_Some. split; [|done].
  rewrite (validateHoles_lookup_score _ 0 _ j hole Hj).
  unfold validateScore. by rewrite Hle.
Qed.

(** Apart from the player's, every error validation reports is the [true] of
    a score that is not above zero, under that score's path. *)
Lemma validateValues_lookup_inv (v : FormValues.t) (path : string)
  (e : ReactNode) :
  validateValues v !! path = Some e →
  path ≠ "playerId" →
  ∃ j hole, path = scorePath j ∧ FormValues.grossHoles v !! j = Some hole ∧
            JS.gt0 (Number (score hole)) = false ∧ e = RTrue.
Proof.
  unfold validateValues, filterErrors, validateRulesRecord.
  intros Hlook Hpath. apply map_lookup_filter_Some in Hlook as [Hlook Hkept].
  simpl in Hkept.
  apply validateHoles_lookup_inv in Hlook as [Hacc | (j & hole & Hj & -> & ->)].
  - apply lookup_insert_Some in Hacc as [[<- _] | [_ Hacc]]; done.
  - exists j, hole. unfold validateScore in *.
    destruct (JS.gt0 (Number (score hole))); done.
Qed.

(** C4. Submitting the form is blocked with a validation error whenever no
    player is selected or some hole score, coerced to a number, is not
    greater than 0: the handler is not called, nothing is sent, and the
    errors found are stored (a message for the player, [true] for the score).
    When a player is selected and every score is greater than 0, validation
    finds no error and the handler runs on the transformed values. The
    statement holds for any number of entries, 18 in particular. *)
Theorem submission_blocked_unless_valid (w : World) (players : list Player)
  (outcome : MutationOutcome) :
  let v := values w in
  let w' := exec (submit players outcome) w in
  let blocked := w' = mkWorld (opened w) v (validateValues v) (effects w) in
  (FormValues.playerId v = None →
     blocked ∧ errors w' !! "playerId" = Some (RText "Player is required"))
  ∧ (∀ j hole, FormValues.grossHoles v !! j = Some hole →
       JS.gt0 (Number (score hole)) = false →
       blocked ∧ errors w' !! scorePath j = Some RTrue)
  ∧ (FormValues.playerId v ≠ None →
     Forall (λ hole, JS.gt0 (Number (score hole)) = true)
       (FormValues.grossHoles v) →
     hasErrors (validateValues v) = false ∧
     w' = exec (onSubmit outcome (transformValues players v))
            (mkWorld (opened w) v ∅ (effects w))).
Proof.
  intros v w' blocked. subst v w' blocked. repeat split.
  - apply exec_submit_blocked, hasErrors_true. by left.
  - rewrite exec_submit_blocked by (apply hasErrors_true; by left).
    simpl. by apply validateValues_playerId_required.
  - apply exec_submit_blocked, hasErrors_true. right.
    apply Exists_exists. exists hole. split; [|done].
    apply list_elem_of_In, list_elem_of_lookup. eauto.
  - rewrite exec_submit_blocked.
    + simpl. by eapply validateValues_score_invalid.
    + apply hasErrors_true. right.
      apply Exists_exists. exists hole. split; [|done].
      apply list_elem_of_In, list_elem_of_lookup. eauto.
  - by apply hasErrors_false.
  - apply exec_submit_passed. by apply hasErrors_false.
Qed.

End Submission.

Lemma submission_blocked_unless_valid_witness :
  (FormValues.playerId noPlayerValues = None ∧
   exec (@submit sampleRuntime [samplePlayer] Rejected) (worldOf noPlayerValues)
   = mkWorld true noPlayerValues
       {["playerId" := RText "Player is required"]} [])
  ∧ (FormValues.grossHoles zeroScoreValues !! 2%nat
       = Some {| score := VString "0" |} ∧
     errors (exec (@submit sampleRuntime [samplePlayer] Rejected)
               (worldOf zeroScoreValues)) !! "grossHoles.2.score"
     = Some RTrue)
  ∧ (FormValues.playerId sampleValues ≠ None ∧
     @hasErrors (@validateValues sampleRuntime sampleValues) = false).
Proof.
  split; [|split].
  - split; [reflexivity|].
    destruct (@submission_blocked_unless_valid sampleRuntime
                (worldOf noPlayerValues) [samplePlayer] Rejected)
      as ([Hblocked _] & _ & _); [reflexivity|].
    rewrite Hblocked. vm_compute. reflexivity.
  - split; [reflexivity|].
    destruct (@submission_blocked_unless_valid sampleRuntime
                (worldOf zeroScoreValues) [samplePlayer] Rejected)
      as (_ & Hscore & _).
    destruct (Hscore 2%nat {| score := VString "0" |}) as [_ Herr];
      [reflexivity | vm_compute; reflexivity |].
    exact Herr.
  - split; [discriminate|].
    destruct (@submission_blocked_unless_valid sampleRuntime
                (worldOf sampleValues) [samplePlayer] Rejected)
      as (_ & _ & Hvalid).
    destruct Hvalid as [Hnone _]; [discriminate | | exact Hnone].
    unfold sampleValues, sampleHoles. simpl.
    repeat constructor.
Defined.

(** ** The submit handler *)

Lemma newEffects_app (w w' : World) (log : list Effect) :
  effects w' = effects w ++ log → newEffects w w' = log.
Proof. intros Heq. unfold newEffects. rewrite Heq. apply drop_app_length. Qed.

(** What [onSubmit] does to the world when the transformed values carry a
    player, by outcome of the request. *)
Lemma exec_onSubmit_player (outcome : MutationOutcome)
  (data : NewRoundFormData.t) (selected : Player) (w : World) :
  NewRoundFormData.player data = Some selected →
  let handle := length (effects w) in
  let request :=
    CreateRound.mk (id selected) (NewRoundFormData.day data)
      (NewRoundFormData.grossHoles data) in
  let sent := [NotifyLoading handle "Saving round.."; Mutate request] in
  exec (onSubmit outcome data) w =
  match outcome with
  | Pending =>
      mkWorld (opened w) (values w) (errors w) (effects w ++ sent)
  | Rejected =>
      mkWorld (opened w) (values w) (errors w)
        (effects w ++ sent ++ [NotifyUpdateFailure handle "Failed to save round"])
  | Resolved response =>
      if JS.isTrue response then
        mkWorld false (values w) (errors w)
          (effects w ++ sent ++
             [NotifyUpdateSuccess handle "Saved round"; CloseModal])
      else
        mkWorld (opened w) (values w) (errors w)
          (effects w ++ sent ++
             [NotifyUpdateFailure handle "Failed to save round"])
  end.
Proof.
  intros Hplayer. unfold onSubmit. rewrite Hplayer.
  destruct outcome as [| |response]; [| |destruct (JS.isTrue response) eqn:Hr];
    unfold exec, bind, mutate, notifications_loading,
      notifications_updateSuccess, notifications_updateFailure, closeModal,
      emit, bind, ret; simpl; rewrite ?Hr; simpl;
    rewrite <- ?app_assoc; reflexivity.
Qed.

Lemma exec_onSubmit_no_player (outcome : MutationOutcome)
  (data : NewRoundFormData.t) (w : World) :
  NewRoundFormData.player data = None →
  exec (onSubmit outcome data) w =
  mkWorld (opened w) (values w)
    {["playerId" := RText "Selected player no longer exists"]} (effects w).
Proof. intros Hnone. unfold onSubmit. by rewrite Hnone. Qed.

Lemma isTrue_iff (response : JS.value) :
  JS.isTrue response = true ↔ response = JS.VBool true.
Proof. destruct response as [| |[|]| | |]; naive_solver. Qed.

(** C5. When the create-round mutation fails, by a request error or by an
    unsuccessful response, exactly one failure notification is shown and the
    modal is not closed: the form and its values stay as they were. The modal
    is closed only when the request resolved with success. *)
Theorem failed_mutation_notifies_once_and_keeps_modal
  (w : World) (data : NewRoundFormData.t) (selected : Player)
  (outcome : MutationOutcome) :
  NewRoundFormData.player data = Some selected →
  let w' := exec (onSubmit outcome data) w in
  (failed outcome = true →
     failureNotifications (newEffects w w') = 1%nat ∧
     closesModal (newEffects w w') = false ∧
     opened w' = opened w ∧
     values w' = values w)
  ∧ (closesModal (newEffects w w') = true →
     outcome = Resolved (JS.VBool true)).
Proof.
  intros Hplayer w'. subst w'.
  pose proof (exec_onSubmit_player outcome data selected w Hplayer) as Hexec.
  simpl in Hexec. rewrite Hexec. clear Hexec.
  destruct outcome as [| |response]; [| |destruct (JS.isTrue response) eqn:Hr];
    (split; [intros Hfailed | intros Hclosed]);
    simpl in *; rewrite ?Hr in *; try discriminate;
    try (erewrite newEffects_app in * by reflexivity);
    try discriminate.
  - done.
  - f_equal. by apply isTrue_iff.
  - done.
Qed.

(** C9. When the request completes without a transport error, anything
    other than the boolean [true] as response is reported as a failure,
    'Failed to save round', and the modal is not closed; the success
    notification and the closing of the modal happen exactly when the
    response is [true]. *)
Theorem only_true_response_is_success
  (w : World) (data : NewRoundFormData.t) (selected : Player)
  (response : JS.value) :
  NewRoundFormData.player data = Some selected →
  let w' := exec (onSubmit (Resolved response) data) w in
  let handle := length (effects w) in
  let request :=
    CreateRound.mk (id selected) (NewRoundFormData.day data)
      (NewRoundFormData.grossHoles data) in
  (response ≠ JS.VBool true →
     newEffects w w' =
       [NotifyLoading handle "Saving round.."; Mutate request;
        NotifyUpdateFailure handle "Failed to save round"] ∧
     opened w' = opened w)
  ∧ (response = JS.VBool true →
     newEffects w w' =
       [NotifyLoading handle "Saving round.."; Mutate request;
        NotifyUpdateSuccess handle "Saved round"; CloseModal] ∧
     opened w' = false).
Proof.
  intros Hplayer w' handle request. subst w' handle request.
  pose proof (exec_onSubmit_player (Resolved response) data selected w Hplayer)
    as Hexec.
  simpl in Hexec. rewrite Hexec. clear Hexec.
  destruct (JS.isTrue response) eqn:Hr.
  - apply isTrue_iff in Hr as ->. split; [done|]. intros _.
    split; [|reflexivity]. by apply newEffects_app.
  - split.
    + intros _. split; [|reflexivity]. by apply newEffects_app.
    + intros ->. discriminate.
Qed.

Lemma failed_mutation_notifies_once_and_keeps_modal_witness :
  NewRoundFormData.player sampleData = Some samplePlayer ∧
  failed (Resolved (JS.VStr "true")) = true ∧
  failureNotifications
    (newEffects (worldOf sampleValues)
       (exec (onSubmit (Resolved (JS.VStr "true")) sampleData)
          (worldOf sampleValues))) = 1%nat ∧
  opened (exec (onSubmit (Resolved (JS.VStr "true")) sampleData)
            (worldOf sampleValues)) = true.
Proof.
  split; [reflexivity|]. split; [reflexivity|].
  destruct (failed_mutation_notifies_once_and_keeps_modal
              (worldOf sampleValues) sampleData samplePlayer
              (Resolved (JS.VStr "true")) eq_refl)
    as [Hfailed _].
  destruct (Hfailed eq_refl) as (Hone & _ & Hopened & _).
  split; [exact Hone | exact Hopened].
Defined.

Lemma only_true_response_is_success_witness :
  NewRoundFormData.player sampleData = Some samplePlayer ∧
  JS.VNum (JS.ofZ 1) ≠ JS.VBool true ∧
  newEffects (worldOf sampleValues)
    (exec (onSubmit (Resolved (JS.VNum (JS.ofZ 1))) sampleData)
       (worldOf sampleValues))
  = [NotifyLoading 0%nat "Saving round..";
     Mutate (CreateRound.mk (JS.ofZ 7) FRIDAY (map JS.ofZ Holes.exampleScores));
     NotifyUpdateFailure 0%nat "Failed to save round"] ∧
  opened (exec (onSubmit (Resolved (JS.VBool true)) sampleData)
            (worldOf sampleValues)) = false.
Proof.
  split; [reflexivity|]. split; [discriminate|].
  split.
  - destruct (only_true_response_is_success (worldOf sampleValues) sampleData
                samplePlayer (JS.VNum (JS.ofZ 1)) eq_refl) as [Hother _].
    destruct Hother as [Hlog _]; [discriminate|]. exact Hlog.
  - destruct (only_true_response_is_success (worldOf sampleValues) sampleData
                samplePlayer (JS.VBool true) eq_refl) as [_ Htrue].
    destruct (Htrue eq_refl) as [_ Hclosed]. exact Hclosed.
Defined.

(** ** Invariants of the form *)

Section Invariants.
Context `{Runtime}.

Lemma length_initial_grossHoles :
  length (FormValues.grossHoles initialValues) = 18%nat.
Proof. reflexivity. Qed.

(** [transformValues] maps [grossHoles] entry by entry. *)
Lemma length_transformValues (players : list Player) (v : FormValues.t) :
  length (NewRoundFormData.grossHoles (transformValues players v))
  = length (FormValues.grossHoles v).
Proof. unfold transformValues. simpl. apply length_map. Qed.

Lemma requests_app (l1 l2 : list Effect) :
  requests (l1 ++ l2) = requests l1 ++ requests l2.
Proof. apply omap_app. Qed.

(** A submission leaves the values alone, and the only request it can add
    carries the transformed holes. *)
Lemma exec_submit_values (players : list Player) (outcome : MutationOutcome)
  (w : World) :
  values (exec (submit players outcome) w) = values w.
Proof.
  destruct (hasErrors (validateValues (values w))) eqn:Herr.
  - by rewrite exec_submit_blocked.
  - rewrite exec_submit_passed by done.
    destruct (NewRoundFormData.player (transformValues players (values w)))
      as [selected|] eqn:Hplayer.
    + rewrite (exec_onSubmit_player _ _ selected) by done.
      destruct outcome as [| |response]; [| |destruct (JS.isTrue response)];
        reflexivity.
    + by rewrite exec_onSubmit_no_player.
Qed.

Lemma exec_submit_requests (players : list Player) (outcome : MutationOutcome)
  (w : World) :
  requests (effects (exec (submit players outcome) w)) = requests (effects w)
  ∨ ∃ request,
      requests (effects (exec (submit players outcome) w))
      = requests (effects w) ++ [request] ∧
      CreateRound.grossHoles request
      = NewRoundFormData.grossHoles (transformValues players (values w)).
Proof.
  destruct (hasErrors (validateValues (values w))) eqn:Herr.
  - left. by rewrite exec_submit_blocked.
  - rewrite exec_submit_passed by done.
    destruct (NewRoundFormData.player (transformValues players (values w)))
      as [selected|] eqn:Hplayer.
    + right. rewrite (exec_onSubmit_player _ _ selected) by done.
      set (data := transformValues players (values w)) in *.
      exists (CreateRound.mk (id selected) (NewRoundFormData.day data)
                (NewRoundFormData.grossHoles data)).
      split; [|reflexivity].
      destruct outcome as [| |response]; [| |destruct (JS.isTrue response)];
        simpl; rewrite requests_app; reflexivity.
    + left. by rewrite exec_onSubmit_no_player.
Qed.

Lemma handle_length_grossHoles (e : Event) (w : World) :
  length (FormValues.grossHoles (values w)) = 18%nat →
  length (FormValues.grossHoles (values (handle e w))) = 18%nat.
Proof.
  intros Hlen. destruct e; simpl; try done.
  - by destruct (opened w).
  - by rewrite length_insert.
  - by rewrite exec_submit_values.
Qed.

(** C6. The grossHoles field always has exactly 18 entries: it starts with
    18, no event of the form changes that number, transformValues maps the
    entries one by one, and so every request handed to the create-round
    mutation carries 18 holes. *)
Theorem grossHoles_always_has_18_entries (w : World) :
  reachable w →
  length (FormValues.grossHoles (values w)) = 18%nat
  ∧ (∀ players,
       length (NewRoundFormData.grossHoles (transformValues players (values w)))
       = 18%nat)
  ∧ Forall (λ request, length (CreateRound.grossHoles request) = 18%nat)
      (requests (effects w)).
Proof.
  intros Hreach.
  assert (length (FormValues.grossHoles (values w)) = 18%nat
          ∧ Forall (λ request, length (CreateRound.grossHoles request) = 18%nat)
              (requests (effects w))) as [Hlen Hsent].
  { induction Hreach as [|w e Hreach [IHlen IHsent] Henabled].
    - split; [reflexivity | constructor].
    - split; [by apply handle_length_grossHoles|].
      destruct e; simpl; try done.
      + by destruct (opened w).
      + destruct (exec_submit_requests players outcome w)
          as [-> | (request & -> & Hholes)]; [done|].
        apply Forall_app. split; [done|].
        constructor; [|constructor].
        by rewrite Hholes, length_transformValues. }
  split; [done|]. split; [|done].
  intros players. by rewrite length_transformValues.
Qed.

End Invariants.

Lemma play_reachable `{Runtime} (events : list Event) (w w' : World) :
  reachable w → play events w = Some w' → reachable w'.
Proof.
  revert w. induction events as [|e rest IH]; intros w Hreach Hplay; simpl in *.
  - by injection Hplay as <-.
  - destruct (enabled e w) eqn:Henabled; [|done].
    apply (IH (handle e w)); [|done]. by constructor.
Qed.

Lemma grossHoles_always_has_18_entries_witness :
  @reachable sampleRuntime sessionWorld ∧
  length (FormValues.grossHoles (values sessionWorld)) = 18%nat ∧
  requests (effects sessionWorld)
  = [CreateRound.mk (JS.ofZ 7) FRIDAY (map JS.ofZ Holes.exampleScores)] ∧
  Forall (λ request, length (CreateRound.grossHoles request) = 18%nat)
    (requests (effects sessionWorld)).
Proof.
  assert (@reachable sampleRuntime sessionWorld) as Hreach.
  { apply (@play_reachable sampleRuntime sampleSession
             (@initialWorld sampleRuntime)); [constructor|].
    vm_compute. reflexivity. }
  split; [exact Hreach|].
  destruct (@grossHoles_always_has_18_entries sampleRuntime sessionWorld
              Hreach) as (Hlen & _ & Hsent).
  split; [exact Hlen|]. split; [vm_compute; reflexivity | exact Hsent].
Defined.

(** ** What the hole input lets through *)

Lemma Qc_integer (q : Qc) :
  Qden (this q) = 1%positive → q = Qc_of_Z (Qnum (this q)).
Proof.
  intros Hden. apply Qc_is_canon.
  destruct q as [[num den] Hcanon]. simpl in *. subst den. reflexivity.
Qed.

Lemma Qc_of_Z_le (a b : Z) : (Qc_of_Z a ≤ Qc_of_Z b)%Qc ↔ a ≤ b.
Proof. unfold Qcle, Qle. simpl. lia. Qed.

Section HoleInputFacts.
Context `{Runtime}.

(** The numbers [HoleInput] allows are the integers from 1 to 99, whatever
    props the caller passed. *)
Lemma HoleInput_allows (otherProps : NumberInput.Props) (q : Qc) :
  NumberInput.allows (HoleInput otherProps) q = true ↔
  ∃ z, q = Qc_of_Z z ∧ 1 ≤ z ≤ 99.
Proof.
  unfold NumberInput.allows, NumberInput.isInRange, NumberInput.isInteger.
  simpl. rewrite !andb_true_iff, !bool_decide_eq_true. split.
  - intros [[_ Hint] [Hlo Hhi]]. exists (Qnum (this q)).
    apply Qc_integer in Hint. split; [exact Hint|].
    rewrite Hint in Hlo, Hhi.
    apply (proj1 (Qc_of_Z_le _ _)) in Hlo.
    apply (proj1 (Qc_of_Z_le _ _)) in Hhi. done.
  - intros (z & -> & Hlo & Hhi). repeat split.
    + apply (proj2 (Qc_of_Z_le 0 z)). lia.
    + by apply (proj2 (Qc_of_Z_le 1 z)).
    + by apply (proj2 (Qc_of_Z_le z 99)).
Qed.

Lemma HoleInput_emits_present (otherProps : NumberInput.Props)
  (value : FieldValue) (n : JS.number) :
  NumberInput.emits (HoleInput otherProps) value = true →
  presentScore value = Some n →
  ∃ z, n = JS.ofZ z ∧ 1 ≤ z ≤ 99.
Proof.
  unfold NumberInput.emits, presentScore.
  destruct value as [m|[|a s]]; [| done |];
    (destruct (Number _) as [| |q] eqn:Hnumber; [done | done |]);
    intros Hallows [= <-];
    apply HoleInput_allows in Hallows as (z & -> & Hrange);
    by exists z.
Qed.

(** The scores of a reachable form: each is blank or came through a hole
    input. *)
Lemma reachable_scores (w : World) :
  reachable w →
  Forall (λ hole, ∀ n, presentScore (score hole) = Some n →
                       ∃ z, n = JS.ofZ z ∧ 1 ≤ z ≤ 99)
    (FormValues.grossHoles (values w)).
Proof.
  assert (Forall (λ hole, ∀ n, presentScore (score hole) = Some n →
                          ∃ z, n = JS.ofZ z ∧ 1 ≤ z ≤ 99)
            (FormValues.grossHoles initialValues)) as Hblank.
  { apply Forall_replicate. intros n. simpl. discriminate. }
  induction 1 as [|w e Hreach IH Henabled]; [exact Hblank|].
  destruct e; simpl in *; try done.
  - by destruct (opened w).
  - apply andb_true_iff in Henabled as [_ Hemits].
    apply Forall_insert; [done|]. simpl. intros n.
    by apply (HoleInput_emits_present inputProps).
  - by rewrite exec_submit_values.
Qed.

(** X11. In every world the user can bring about, the numbers that
    transformValues hands to the displayed totals and to the request are
    integers, never NaN and never a fraction: 0 for a blank field, as
    [Number('')] is 0, and 1 to 99 otherwise. *)
Lemma transformed_holes_are_integers (w : World) (players : list Player) :
  reachable w →
  StringToNumber "" = JS.ofZ 0 →
  Forall (λ n, ∃ z, n = JS.ofZ z ∧ 0 ≤ z ≤ 99)
    (NewRoundFormData.grossHoles (transformValues players (values w))).
Proof.
  intros Hreach Hblank. apply reachable_scores in Hreach.
  unfold transformValues. simpl. apply Forall_map.
  revert Hreach. apply Forall_impl. intros [value] Hscore. simpl in *.
  destruct value as [m|[|a s]].
  - destruct (Hscore m eq_refl) as (z & -> & Hz). exists z. split; [done|lia].
  - exists 0. split; [exact Hblank | lia].
  - destruct (Hscore _ eq_refl) as (z & Hz & Hrange).
    exists z. split; [exact Hz | lia].
Qed.

(** C7. Every hole score present in the form is a positive integer of at
    most 99. Each hole input lets through only the blank field and the
    integers from 1 to 99 (no negatives, no decimals, strict clamping), and
    the form starts blank, so this holds in every world the user can bring
    about. *)
Theorem scores_present_are_integers_1_to_99 (w : World) :
  reachable w →
  (∀ otherProps value n,
     NumberInput.emits (HoleInput otherProps) value = true →
     presentScore value = Some n →
     ∃ z, n = JS.ofZ z ∧ 1 ≤ z ≤ 99)
  ∧ (∀ j hole n,
       FormValues.grossHoles (values w) !! j = Some hole →
       presentScore (score hole) = Some n →
       ∃ z, n = JS.ofZ z ∧ 1 ≤ z ≤ 99).
Proof.
  intros Hreach. split; [apply HoleInput_emits_present|].
  intros j hole n Hj.
  by apply (Forall_lookup_1 _ _ _ _ (reachable_scores w Hreach) Hj).
Qed.

End HoleInputFacts.

Lemma scores_present_are_integers_1_to_99_witness :
  @reachable sampleRuntime sessionWorld ∧
  FormValues.grossHoles (values sessionWorld) !! 1%nat
  = Some {| score := VNumber (JS.ofZ 5) |} ∧
  ∃ z, JS.ofZ 5 = JS.ofZ z ∧ 1 ≤ z ≤ 99.
Proof.
  assert (@reachable sampleRuntime sessionWorld) as Hreach.
  { apply (@play_reachable sampleRuntime sampleSession
             (@initialWorld sampleRuntime)); [constructor|].
    vm_compute. reflexivity. }
  split; [exact Hreach|]. split; [vm_compute; reflexivity|].
  destruct (@scores_present_are_integers_1_to_99 sampleRuntime sessionWorld
              Hreach) as [_ Hform].
  apply (Hform 1%nat {| score := VNumber (JS.ofZ 5) |} (JS.ofZ 5));
    [vm_compute; reflexivity | reflexivity].
Defined.

(** ** Stored errors *)

Section StoredErrors.
Context `{Runtime}.

Lemma errorsAreCurrent_same_holes (w : World) (v' : FormValues.t)
  (errs : gmap string ReactNode) (o : bool) (log : list Effect) :
  errorsAreCurrent w →
  FormValues.grossHoles v' = FormValues.grossHoles (values w) →
  errs ⊆ errors w →
  errorsAreCurrent (mkWorld o v' errs log).
Proof.
  intros Hcurrent Hholes Hsub path e Hlook Hpath. simpl in *.
  eapply lookup_weaken in Hlook; [|exact Hsub].
  destruct (validateValues_lookup_inv _ _ _ (Hcurrent path e Hlook Hpath) Hpath)
    as (j & hole & -> & Hj & Hle & ->).
  apply (validateValues_score_invalid v' j hole); [|done].
  by rewrite Hholes.
Qed.

(** Changing a field clears its error, so what is stored never goes stale. *)
Lemma reachable_errors (w : World) : reachable w → errorsAreCurrent w.
Proof.
  induction 1 as [|w e Hreach IH Henabled].
  - intros path e Hlook. done.
  - destruct e; simpl.
    + destruct (opened w); [done|]. intros path e Hlook. done.
    + by apply (errorsAreCurrent_same_holes w).
    + apply (errorsAreCurrent_same_holes w); [done..|apply delete_subseteq].
    + apply (errorsAreCurrent_same_holes w); [done..|apply delete_subseteq].
    + intros path e Hlook Hpath. simpl in *.
      apply lookup_delete_Some in Hlook as [Hother Hlook].
      destruct (validateValues_lookup_inv _ _ _ (IH path e Hlook Hpath) Hpath)
        as (j & hole & -> & Hj & Hle & ->).
      apply (validateValues_score_invalid _ j hole); [|done].
      simpl. rewrite list_lookup_insert_ne; [done|]. by intros ->.
    + intros path e Hlook. done.
    + destruct (hasErrors (validateValues (values w))) eqn:Herr.
      * rewrite exec_submit_blocked by done. intros path e Hlook _. done.
      * rewrite exec_submit_passed by done.
        destruct (NewRoundFormData.player (transformValues players (values w)))
          as [selected|] eqn:Hplayer.
        -- rewrite (exec_onSubmit_player _ _ selected) by done.
           destruct outcome as [| |response];
             [| |destruct (JS.isTrue response)];
             intros path e Hlook; done.
        -- rewrite exec_onSubmit_no_player by done.
           intros path e Hlook Hpath. simpl in *.
           by rewrite lookup_singleton_ne in Hlook.
Qed.

(** C10. If the form passes validation but the transformed player is
    undefined, because the selected id matches no player of the fetched list,
    the create-round mutation is not invoked and no notification is shown;
    the error 'Selected player no longer exists' is set on playerId, and the
    values of the form and the modal stay as they were. In a world the user
    can bring about, the stored errors change at playerId only. *)
Theorem missing_player_sets_error_without_request
  (w : World) (players : list Player) (outcome : MutationOutcome) :
  hasErrors (validateValues (values w)) = false →
  NewRoundFormData.player (transformValues players (values w)) = None →
  let w' := exec (submit players outcome) w in
  let message := RText "Selected player no longer exists" in
  w' = mkWorld (opened w) (values w) {["playerId" := message]} (effects w)
  ∧ requests (newEffects w w') = []
  ∧ newEffects w w' = []
  ∧ (reachable w → errors w' = <["playerId" := message]> (errors w)).
Proof.
  intros Hvalid Hnone w' message. subst w' message.
  rewrite exec_submit_passed by done.
  rewrite exec_onSubmit_no_player by done. simpl.
  assert (newEffects w
            (mkWorld (opened w) (values w)
               {["playerId" := RText "Selected player no longer exists"]}
               (effects w)) = []) as Hnew.
  { apply newEffects_app. simpl. by rewrite app_nil_r. }
  rewrite Hnew. repeat split.
  intros Hreach. apply reachable_errors in Hreach.
  apply map_eq. intros path.
  destruct (decide (path = "playerId")) as [->|Hpath].
  - by rewrite lookup_singleton_eq, lookup_insert_eq.
  - rewrite lookup_singleton_ne by congruence.
    rewrite lookup_insert_ne by congruence.
    destruct (errors w !! path) as [e|] eqn:Hlook; [|done].
    pose proof (Hreach path e Hlook Hpath) as Hcurrent.
    unfold hasErrors in Hvalid.
    apply negb_false_iff, bool_decide_eq_true in Hvalid.
    by rewrite Hvalid in Hcurrent.
Qed.

End StoredErrors.

Lemma missing_player_sets_error_without_request_witness :
  @hasErrors (@validateValues sampleRuntime (values filledWorld)) = false ∧
  NewRoundFormData.player
    (@transformValues sampleRuntime [] (values filledWorld)) = None ∧
  @reachable sampleRuntime filledWorld ∧
  exec (@submit sampleRuntime [] (Resolved (JS.VBool true))) filledWorld
  = mkWorld true sampleValues
      {["playerId" := RText "Selected player no longer exists"]} [] ∧
  errors (exec (@submit sampleRuntime [] (Resolved (JS.VBool true)))
            filledWorld)
  = <["playerId" := RText "Selected player no longer exists"]>
      (errors filledWorld).
Proof.
  assert (@hasErrors (@validateValues sampleRuntime (values filledWorld))
          = false) as Hvalid by (vm_compute; reflexivity).
  assert (@reachable sampleRuntime filledWorld) as Hreach.
  { apply (@play_reachable sampleRuntime fillingSession
             (@initialWorld sampleRuntime)); [constructor|].
    vm_compute. reflexivity. }
  split; [exact Hvalid|]. split; [reflexivity|]. split; [exact Hreach|].
  destruct (@missing_player_sets_error_without_request sampleRuntime
              filledWorld [] (Resolved (JS.VBool true))
              Hvalid eq_refl) as (Hworld & _ & _ & Herrors).
  split; [|exact (Herrors Hreach)].
  rewrite Hworld. vm_compute. reflexivity.
Defined.

End NewRoundFacts.

(** * Further properties of the form *)

Module FormFacts.
Import NewRoundFacts.

Lemma strictEq_eq (a b : JS.number) : JS.strictEq a b = true → a = b.
Proof.
  destruct a as [| s |p], b as [| t |q]; simpl; try done;
    intros Heq%bool_decide_eq_true; congruence.
Qed.

Lemma strictEq_refl (a : JS.number) : a ≠ JS.NaN → JS.strictEq a a = true.
Proof. destruct a; simpl; [done | |]; intros _; by apply bool_decide_eq_true. Qed.

Lemma gt0_ofZ (z : Z) : JS.gt0 (JS.ofZ z) = true ↔ 0 < z.
Proof.
  unfold JS.gt0, JS.ofZ. rewrite bool_decide_eq_true.
  unfold Qclt, Qlt. simpl. lia.
Qed.

Section Requests.
Context `{Runtime}.

(** X1. A submission that passes validation and finds the selected player
    sends exactly one request, whatever becomes of it: it carries the number
    of the selected id, the selected day and the number of every score, in
    order. The values of the form stay and its errors are empty. *)
Theorem valid_submission_sends_the_round_once
  (w : World) (players : list Player) (outcome : MutationOutcome)
  (selected : string) (found : Player) :
  hasErrors (validateValues (values w)) = false →
  FormValues.playerId (values w) = Some selected →
  NewRoundFormData.player (transformValues players (values w)) = Some found →
  let w' := exec (submit players outcome) w in
  requests (newEffects w w')
  = [CreateRound.mk (StringToNumber selected) (FormValues.day (values w))
       (map (λ hole, Number (score hole)) (FormValues.grossHoles (values w)))]
  ∧ values w' = values w
  ∧ errors w' = ∅.
Proof.
  intros Hvalid Hselected Hfound w'. subst w'.
  assert (id found = StringToNumber selected) as Hid.
  { unfold transformValues in Hfound. simpl in Hfound.
    apply find_some in Hfound as [_ Heq]. apply strictEq_eq in Heq.
    by rewrite Hselected in Heq. }
  rewrite exec_submit_passed by done.
  rewrite (exec_onSubmit_player _ _ found) by done.
  rewrite Hid.
  destruct outcome as [| |response]; [| |destruct (JS.isTrue response)];
    (split; [erewrite newEffects_app by reflexivity; reflexivity | done]).
Qed.

(** X2. Validation reports exactly the invalid fields: an error is stored
    under a path if and only if it is 'Player is required' under playerId
    with no player selected, or [true] under the path of a hole whose score
    is not a number above zero. *)
Theorem validation_reports_exactly_the_invalid_fields
  (v : FormValues.t) (path : string) (e : ReactNode) :
  validateValues v !! path = Some e ↔
  (path = "playerId" ∧ FormValues.playerId v = None ∧
   e = RText "Player is required")
  ∨ (∃ j hole, path = scorePath j ∧
               FormValues.grossHoles v !! j = Some hole ∧
               JS.gt0 (Number (score hole)) = false ∧ e = RTrue).
Proof.
  split.
  - intros Hlook. destruct (decide (path = "playerId")) as [->|Hpath].
    + left. split; [done|].
      unfold validateValues, filterErrors, validateRulesRecord in Hlook.
      apply map_lookup_filter_Some in Hlook as [Hlook Hkept].
      rewrite validateHoles_lookup_other in Hlook.
      * rewrite lookup_insert_eq in Hlook. injection Hlook as <-.
        simpl in Hkept. by destruct (FormValues.playerId v).
      * intros j _ Heq. symmetry in Heq.
        by apply scorePath_not_playerId in Heq.
    + right. by apply validateValues_lookup_inv.
  - intros [(-> & Hnone & ->) | (j & hole & -> & Hj & Hle & ->)].
    + by apply validateValues_playerId_required.
    + by apply (validateValues_score_invalid v j hole).
Qed.

End Requests.

Lemma valid_submission_sends_the_round_once_witness :
  @hasErrors (@validateValues sampleRuntime (values filledWorld)) = false ∧
  FormValues.playerId (values filledWorld) = Some "7" ∧
  NewRoundFormData.player
    (@transformValues sampleRuntime samplePlayers (values filledWorld))
  = Some samplePlayer ∧
  requests
    (newEffects filledWorld
       (exec (@submit sampleRuntime samplePlayers Rejected) filledWorld))
  = [CreateRound.mk (JS.ofZ 7) FRIDAY (map JS.ofZ Holes.exampleScores)].
Proof.
  assert (@hasErrors (@validateValues sampleRuntime (values filledWorld))
          = false) as Hvalid by (vm_compute; reflexivity).
  assert (FormValues.playerId (values filledWorld) = Some "7") as Hselected
    by (vm_compute; reflexivity).
  assert (NewRoundFormData.player
            (@transformValues sampleRuntime samplePlayers (values filledWorld))
          = Some samplePlayer) as Hfound by (vm_compute; reflexivity).
  split; [exact Hvalid|]. split; [exact Hselected|]. split; [exact Hfound|].
  destruct (@valid_submission_sends_the_round_once sampleRuntime filledWorld
              samplePlayers Rejected "7" samplePlayer Hvalid Hselected Hfound)
    as [Hsent _].
  rewrite Hsent. vm_compute. reflexivity.
Defined.

(** ** What the inputs make of validation *)

Section Inputs.
Context `{Runtime}.

(** X3. A hole input accepts exactly the integers from 1 to 99 as numbers,
    whatever props its caller passed: every such score can be entered, and 0,
    100, negative and fractional numbers, infinities and NaN cannot. The
    cleared field is accepted too. *)
Theorem hole_input_accepts_exactly_1_to_99
  (otherProps : NumberInput.Props) (n : JS.number) :
  (NumberInput.emits (HoleInput otherProps) (VNumber n) = true ↔
   ∃ z, n = JS.ofZ z ∧ 1 ≤ z ≤ 99)
  ∧ NumberInput.emits (HoleInput otherProps) (VString "") = true.
Proof.
  split; [|reflexivity].
  unfold NumberInput.emits. simpl. destruct n as [| negative |q].
  - split; [done | by intros (z & ? & _)].
  - split; [done | by intros (z & ? & _)].
  - rewrite HoleInput_allows. unfold JS.ofZ. split.
    + intros (z & -> & Hz). by exists z.
    + intros (z & [= ->] & Hz). by exists z.
Qed.

Lemma score_valid_iff_present (value : FieldValue) :
  (∀ n, presentScore value = Some n → ∃ z, n = JS.ofZ z ∧ 1 ≤ z ≤ 99) →
  StringToNumber "" = JS.ofZ 0 →
  JS.gt0 (Number value) = true ↔ value ≠ VString "".
Proof.
  intros Hpresent Hblank. destruct value as [m|[|a s]]; simpl in *.
  - destruct (Hpresent m eq_refl) as (z & -> & Hz).
    split; [done|]. intros _. apply gt0_ofZ. lia.
  - rewrite Hblank. split; [|done].
    intros Hgt. apply gt0_ofZ in Hgt. lia.
  - destruct (Hpresent _ eq_refl) as (z & -> & Hz).
    split; [done|]. intros _. apply gt0_ofZ. lia.
Qed.

Lemma reachable_length (w : World) :
  reachable w → length (FormValues.grossHoles (values w)) = 18%nat.
Proof.
  induction 1 as [|w e Hreach IH Henabled]; [reflexivity|].
  by apply handle_length_grossHoles.
Qed.

(** A submission adds a request only when validation found nothing. *)
Lemma exec_submit_sent (players : list Player) (outcome : MutationOutcome)
  (w : World) :
  requests (effects (exec (submit players outcome) w)) = requests (effects w)
  ∨ hasErrors (validateValues (values w)) = false ∧
    ∃ request,
      requests (effects (exec (submit players outcome) w))
      = requests (effects w) ++ [request] ∧
      CreateRound.grossHoles request
      = map (λ hole, Number (score hole)) (FormValues.grossHoles (values w)).
Proof.
  destruct (hasErrors (validateValues (values w))) eqn:Herr.
  - left. by rewrite exec_submit_blocked.
  - destruct (exec_submit_requests players outcome w)
      as [Hsame | (request & Hsent & Hholes)]; [by left|].
    right. split; [done|]. by exists request.
Qed.

(** X4. In a world the user can bring about, where [Number('')] is 0 as in
    JavaScript, the form passes validation exactly when a player is selected
    and no hole is blank: whatever else a hole input lets through is a score
    that validation accepts. *)
Theorem reachable_form_is_valid_iff_filled (w : World) :
  reachable w →
  StringToNumber "" = JS.ofZ 0 →
  hasErrors (validateValues (values w)) = false ↔
  FormValues.playerId (values w) ≠ None ∧
  Forall (λ hole, score hole ≠ VString "") (FormValues.grossHoles (values w)).
Proof.
  intros Hreach Hblank. rewrite hasErrors_false.
  pose proof (reachable_scores w Hreach) as Hscores.
  rewrite !Forall_lookup in *.
  split; intros [Hplayer Hall]; (split; [done|]); intros j hole Hj.
  - apply score_valid_iff_present; eauto.
  - apply score_valid_iff_present; eauto.
Qed.

(** X5. Every request the form has ever sent holds 18 scores, each an integer
    from 1 to 99, given that [Number('')] is 0: validation keeps blank holes
    out and the inputs keep everything else in range. *)
Theorem every_request_holds_18_scores_from_1_to_99 (w : World) :
  reachable w →
  StringToNumber "" = JS.ofZ 0 →
  Forall (λ request,
            length (CreateRound.grossHoles request) = 18%nat ∧
            Forall (λ n, ∃ z, n = JS.ofZ z ∧ 1 ≤ z ≤ 99)
              (CreateRound.grossHoles request))
    (requests (effects w)).
Proof.
  intros Hreach Hblank.
  induction Hreach as [|w e Hreach IH Henabled]; [constructor|].
  destruct e; simpl; try done.
  - by destruct (opened w).
  - destruct (exec_submit_sent players outcome w)
      as [-> | (Hvalid & request & -> & Hholes)]; [done|].
    apply Forall_app. split; [done|]. constructor; [|constructor].
    rewrite Hholes. split.
    + rewrite length_map. by apply reachable_length.
    + apply hasErrors_false in Hvalid as [_ Hvalid].
      pose proof (reachable_scores w Hreach) as Hscores.
      apply Forall_map. rewrite !Forall_lookup in *. intros j hole Hj.
      specialize (Hvalid j hole Hj). specialize (Hscores j hole Hj).
      simpl in *. apply Hscores.
      destruct (score hole) as [m|[|a s]]; simpl; try done.
      simpl in Hvalid. rewrite Hblank in Hvalid.
      apply gt0_ofZ in Hvalid. lia.
Qed.

End Inputs.

Lemma reachable_form_is_valid_iff_filled_witness :
  @reachable sampleRuntime filledWorld ∧
  @StringToNumber sampleRuntime "" = JS.ofZ 0 ∧
  (@hasErrors (@validateValues sampleRuntime (values filledWorld)) = false ↔
   FormValues.playerId (values filledWorld) ≠ None ∧
   Forall (λ hole, score hole ≠ VString "")
     (FormValues.grossHoles (values filledWorld))).
Proof.
  assert (@reachable sampleRuntime filledWorld) as Hreach.
  { apply (@play_reachable sampleRuntime fillingSession
             (@initialWorld sampleRuntime)); [constructor|].
    vm_compute. reflexivity. }
  split; [exact Hreach|]. split; [reflexivity|].
  apply (@reachable_form_is_valid_iff_filled sampleRuntime filledWorld Hreach).
  reflexivity.
Defined.

Lemma every_request_holds_18_scores_from_1_to_99_witness :
  @reachable sampleRuntime sessionWorld ∧
  @StringToNumber sampleRuntime "" = JS.ofZ 0 ∧
  requests (effects sessionWorld)
  = [CreateRound.mk (JS.ofZ 7) FRIDAY (map JS.ofZ Holes.exampleScores)] ∧
  Forall (λ request,
            length (CreateRound.grossHoles request) = 18%nat ∧
            Forall (λ n, ∃ z, n = JS.ofZ z ∧ 1 ≤ z ≤ 99)
              (CreateRound.grossHoles request))
    (requests (effects sessionWorld)).
Proof.
  assert (@reachable sampleRuntime sessionWorld) as Hreach.
  { apply (@play_reachable sampleRuntime sampleSession
             (@initialWorld sampleRuntime)); [constructor|].
    vm_compute. reflexivity. }
  split; [exact Hreach|]. split; [reflexivity|].
  split; [vm_compute; reflexivity|].
  apply (@every_request_holds_18_scores_from_1_to_99 sampleRuntime
           sessionWorld Hreach).
  reflexivity.
Defined.

(** ** Fewer inputs than holes *)

Section MissingHoles.
Context `{Runtime}.


Lemma reachableWith_reachable (holes : list Hole.t) (w : World) :
  reachableWith holes w → reachable w.
Proof.
  induction 1 as [|w e Hreach IH Henabled]; [constructor|].
  constructor; [done|].
  unfold enabledWith in Henabled. by apply andb_true_iff in Henabled as [? _].
Qed.





End MissingHoles.


(** ** The player select *)

Section PlayerSelect.
Context `{Runtime} `{Printing}.

Lemma division_filters_partition (players : list Player) :
  filter (λ player, division player = A) players
  ++ filter (λ player, division player = B) players
  ≡ₚ players.
Proof.
  induction players as [|p rest IH]; [done|].
  rewrite !filter_cons. destruct (division p); simpl.
  - by rewrite IH.
  - rewrite <- Permutation_middle. by rewrite IH.
Qed.

(** X7. The select always offers two groups, 'A Division' and 'B Division',
    in that order. Together they hold the option of every fetched player
    exactly once, each group in the order of the fetched list, and both are
    empty as long as the players query has not succeeded. *)
Theorem player_select_groups_partition_the_players
  (status : Query.Status) (data : list Player) :
  let groups := PlayerSelectByDivision status data in
  map SelectGroup.group groups = ["A Division"; "B Division"]
  ∧ concat (map SelectGroup.items groups)
    ≡ₚ map playerItem (queryData status data)
  ∧ Forall (λ g, SelectGroup.items g
                 `sublist_of` map playerItem (queryData status data)) groups
  ∧ (status ≠ Query.success →
     Forall (λ g, SelectGroup.items g = []) groups).
Proof.
  intros groups. subst groups. unfold PlayerSelectByDivision, DivisionValues.
  set (players := queryData status data). simpl.
  split; [reflexivity|]. split; [|split].
  - rewrite app_nil_r. unfold getPlayerItemsByDivision.
    rewrite <- map_app. apply Permutation_map, division_filters_partition.
  - unfold getPlayerItemsByDivision.
    apply Forall_cons; [|apply Forall_cons; [|apply Forall_nil]]; simpl;
      apply (fmap_sublist playerItem (filter _ players) players);
      apply sublist_filter.
  - intros Hstatus. subst players.
    destruct status; [| |done]; by repeat (constructor; try done).
Qed.

Lemma find_unique {T} (f : T → bool) (l : list T) (x : T) :
  x ∈ l → f x = true → (∀ y, y ∈ l → f y = true → y = x) →
  List.find f l = Some x.
Proof.
  induction l as [|y rest IH]; intros Hin Hfx Huniq.
  - by apply elem_of_nil in Hin.
  - simpl. destruct (f y) eqn:Hfy.
    + f_equal. apply Huniq; [apply list_elem_of_here | done].
    + apply IH; [|done|].
      * apply elem_of_cons in Hin as [->|Hin]; [congruence | done].
      * intros z Hz. apply Huniq. by apply list_elem_of_further.
Qed.

(** X8. Choosing the option of a listed player brings that player back:
    the option is offered in the group of the player's division, and with
    its value as playerId, transformValues finds the player, provided the id
    is not NaN, no other listed player has it, and printing it and reading it
    back gives the same number. *)
Theorem choosing_a_listed_player_finds_that_player
  (players : list Player) (p : Player) (d : TournamentDay)
  (holes : list HoleField) :
  p ∈ players →
  id p ≠ JS.NaN →
  StringToNumber (NumberToString (id p)) = id p →
  (∀ q, q ∈ players → id q = id p → q = p) →
  playerItem p ∈ getPlayerItemsByDivision players (division p)
  ∧ NewRoundFormData.player
      (transformValues players
         (FormValues.mk (Some (SelectItem.value (playerItem p))) d holes))
    = Some p.
Proof.
  intros Hin Hnan Hround Huniq. split.
  - unfold getPlayerItemsByDivision.
    change (playerItem p ∈ playerItem <$>
              filter (λ player, division player = division p) players).
    apply list_elem_of_fmap. exists p. split; [done|].
    by apply list_elem_of_filter.
  - unfold transformValues. simpl. rewrite Hround.
    apply find_unique; [done | by apply strictEq_refl |].
    intros q Hq Heq. apply Huniq; [done|]. by apply strictEq_eq.
Qed.

(** X9. With no player selected, [Number(null)] is 0, so transformValues
    looks for a player whose id is 0: if the list has one, that player is
    shown as selected on a form where nobody was chosen, and if it has none,
    no player is shown. Either way submitting stays blocked with 'Player is
    required'. *)
Theorem unselected_form_looks_up_player_zero
  (w : World) (players : list Player) (outcome : MutationOutcome) :
  FormValues.playerId (values w) = None →
  ((∃ p, p ∈ players ∧ id p = JS.ofZ 0) →
   ∃ q, NewRoundFormData.player (transformValues players (values w)) = Some q
        ∧ id q = JS.ofZ 0)
  ∧ ((∀ p, p ∈ players → id p ≠ JS.ofZ 0) →
     NewRoundFormData.player (transformValues players (values w)) = None)
  ∧ exec (submit players outcome) w
    = mkWorld (opened w) (values w) (validateValues (values w)) (effects w)
  ∧ validateValues (values w) !! "playerId" = Some (RText "Player is required").
Proof.
  intros Hnone. unfold transformValues. simpl. rewrite Hnone. simpl.
  split; [|split; [|split]].
  - intros (p & Hin & Hid).
    destruct (List.find (λ player, JS.strictEq (id player) (JS.ofZ 0)) players)
      as [q|] eqn:Hfind.
    + exists q. split; [done|].
      apply find_some in Hfind as [_ Heq]. by apply strictEq_eq.
    + apply list_elem_of_In in Hin.
      apply (find_none _ _ Hfind) in Hin. simpl in Hin.
      rewrite Hid, strictEq_refl in Hin; done.
  - intros Hnozero.
    destruct (List.find (λ player, JS.strictEq (id player) (JS.ofZ 0)) players)
      as [q|] eqn:Hfind; [|done].
    apply find_some in Hfind as [Hin Heq]. apply strictEq_eq in Heq.
    by apply list_elem_of_In, Hnozero in Hin.
  - apply exec_submit_blocked, hasErrors_true. by left.
  - by apply validateValues_playerId_required.
Qed.

(** X10. Nothing holds back a second submission: when a valid form was
    submitted and the request is still pending or has failed, the modal stays
    open, and submitting again sends the same request a second time. *)
Theorem submitting_again_sends_the_request_again
  (w : World) (players : list Player) (first second : MutationOutcome)
  (found : Player) :
  hasErrors (validateValues (values w)) = false →
  NewRoundFormData.player (transformValues players (values w)) = Some found →
  first ≠ Resolved (JS.VBool true) →
  let w1 := exec (submit players first) w in
  let w2 := exec (submit players second) w1 in
  let request :=
    CreateRound.mk (id found) (FormValues.day (values w))
      (map (λ hole, Number (score hole)) (FormValues.grossHoles (values w))) in
  opened w1 = opened w
  ∧ requests (newEffects w w1) = [request]
  ∧ requests (newEffects w w2) = [request; request].
Proof.
  intros Hvalid Hfound Hfirst w1 w2 request. subst w1 w2 request.
  assert (values (exec (submit players first) w) = values w) as Hvalues
    by apply exec_submit_values.
  rewrite (exec_submit_passed players second) by (by rewrite Hvalues).
  rewrite Hvalues.
  rewrite (exec_onSubmit_player second _ found) by done.
  rewrite exec_submit_passed by done.
  rewrite (exec_onSubmit_player first _ found) by done.
  assert (∀ response, first = Resolved response → JS.isTrue response = false)
    as Hnot.
  { intros response ->. apply not_true_iff_false. intros Htrue.
    apply isTrue_iff in Htrue. congruence. }
  unfold newEffects.
  destruct first as [| |r1]; [| |rewrite (Hnot r1 eq_refl)];
    (destruct second as [| |r2]; [| |destruct (JS.isTrue r2)]);
    simpl; rewrite <- ?app_assoc, ?drop_app_length; done.
Qed.

End PlayerSelect.

Lemma choosing_a_listed_player_finds_that_player_witness :
  samplePlayer ∈ samplePlayers ∧
  @StringToNumber sampleRuntime (@NumberToString samplePrinting (id samplePlayer))
  = id samplePlayer ∧
  @playerItem samplePrinting samplePlayer = SelectItem.mk "7" "Sam Par" ∧
  NewRoundFormData.player
    (@transformValues sampleRuntime samplePlayers
       (FormValues.mk (Some "7") SUNDAY sampleHoles))
  = Some samplePlayer.
Proof.
  assert (samplePlayer ∈ samplePlayers) as Hin by apply list_elem_of_here.
  assert (@StringToNumber sampleRuntime
            (@NumberToString samplePrinting (id samplePlayer))
          = id samplePlayer) as Hround by (vm_compute; reflexivity).
  split; [exact Hin|]. split; [exact Hround|].
  split; [vm_compute; reflexivity|].
  destruct (@choosing_a_listed_player_finds_that_player sampleRuntime
              samplePrinting samplePlayers samplePlayer SUNDAY sampleHoles
              Hin) as [_ Hfound]; [discriminate | exact Hround | |].
  - intros q Hq Hid. unfold samplePlayers in Hq.
    repeat (apply elem_of_cons in Hq as [->|Hq]);
      [reflexivity | vm_compute in Hid; discriminate
       | vm_compute in Hid; discriminate | by apply elem_of_nil in Hq].
  - exact Hfound.
Defined.

Lemma unselected_form_looks_up_player_zero_witness :
  FormValues.playerId (values (worldOf noPlayerValues)) = None ∧
  (∃ q, NewRoundFormData.player
          (@transformValues sampleRuntime samplePlayers
             (values (worldOf noPlayerValues))) = Some q
        ∧ id q = JS.ofZ 0) ∧
  NewRoundFormData.player
    (@transformValues sampleRuntime [samplePlayer]
       (values (worldOf noPlayerValues))) = None.
Proof.
  split; [reflexivity|].
  destruct (@unselected_form_looks_up_player_zero sampleRuntime
              (worldOf noPlayerValues) samplePlayers Rejected eq_refl)
    as (Hzero & _ & _ & _).
  destruct (@unselected_form_looks_up_player_zero sampleRuntime
              (worldOf noPlayerValues) [samplePlayer] Rejected eq_refl)
    as (_ & Hnozero & _ & _).
  split.
  - apply Hzero.
    exists {| id := JS.ofZ 0; fullName := "Bo Gey"; division := B;
              handicap := 18 |}.
    split; [|reflexivity].
    apply list_elem_of_further, list_elem_of_here.
  - apply Hnozero. intros p Hp Hid.
    apply elem_of_cons in Hp as [->|Hp]; [|by apply elem_of_nil in Hp].
    vm_compute in Hid. discriminate.
Defined.

Lemma submitting_again_sends_the_request_again_witness :
  @hasErrors (@validateValues sampleRuntime (values filledWorld)) = false ∧
  NewRoundFormData.player
    (@transformValues sampleRuntime samplePlayers (values filledWorld))
  = Some samplePlayer ∧
  Rejected ≠ Resolved (JS.VBool true) ∧
  requests
    (newEffects filledWorld
       (exec (@submit sampleRuntime samplePlayers (Resolved (JS.VBool true)))
          (exec (@submit sampleRuntime samplePlayers Rejected) filledWorld)))
  = [CreateRound.mk (JS.ofZ 7) FRIDAY (map JS.ofZ Holes.exampleScores);
     CreateRound.mk (JS.ofZ 7) FRIDAY (map JS.ofZ Holes.exampleScores)].
Proof.
  assert (@hasErrors (@validateValues sampleRuntime (values filledWorld))
          = false) as Hvalid by (vm_compute; reflexivity).
  assert (NewRoundFormData.player
            (@transformValues sampleRuntime samplePlayers (values filledWorld))
          = Some samplePlayer) as Hfound by (vm_compute; reflexivity).
  split; [exact Hvalid|]. split; [exact Hfound|]. split; [discriminate|].
  destruct (@submitting_again_sends_the_request_again sampleRuntime
              filledWorld samplePlayers Rejected (Resolved (JS.VBool true))
              samplePlayer Hvalid Hfound) as (_ & _ & Htwice); [discriminate|].
  rewrite Htwice. vm_compute. reflexivity.
Defined.

Lemma transformed_holes_are_integers_witness :
  @reachable sampleRuntime filledWorld ∧
  @StringToNumber sampleRuntime "" = JS.ofZ 0 ∧
  Forall (λ n, ∃ z, n = JS.ofZ z ∧ 0 ≤ z ≤ 99)
    (NewRoundFormData.grossHoles
       (@transformValues sampleRuntime samplePlayers (values filledWorld))).
Proof.
  assert (@reachable sampleRuntime filledWorld) as Hreach.
  { apply (@play_reachable sampleRuntime fillingSession
             (@initialWorld sampleRuntime)); [constructor|].
    vm_compute. reflexivity. }
  split; [exact Hreach|]. split; [reflexivity|].
  apply (@transformed_holes_are_integers sampleRuntime filledWorld
           samplePlayers Hreach).
  reflexivity.
Defined.

End FormFacts.
